(** * tools/makefont.py: the bitmap font compiler

    A shallow embedding of [compile] from [tools/makefont.py] together with
    the parts of the Python runtime it calls ([str.lstrip], [str.splitlines],
    [re.match], [functools.reduce], [int.to_bytes], list objects), and the
    properties its specification states about it; then the with-statement
    of [main] over a file system, and further properties of both. *)

From Stdlib Require Import NArith Ascii String Strings.Byte Lia.
From stdpp Require Import base option list gmap strings.

Local Open Scope N_scope.

(** ** Python text *)

(** A [str] is a sequence of Unicode code points. *)
Definition char := N.
Definition str := list char.

(** Text written as a Rocq string literal, one code point per character. *)
Definition text (s : string) : str := map N_of_ascii (list_ascii_of_string s).

Definition DOT : char := 46.   (* '.' *)
Definition STAR : char := 42.  (* '*' *)
Definition AT : char := 64.    (* '@' *)

(** [str.isspace] on one code point: what [str.lstrip()] removes. *)
Definition isspace (c : char) : bool :=
  ((9 <=? c) && (c <=? 13)) || ((28 <=? c) && (c <=? 32))
  || (c =? 133) || (c =? 160) || (c =? 5760)
  || ((8192 <=? c) && (c <=? 8202))
  || (c =? 8232) || (c =? 8233) || (c =? 8239) || (c =? 8287) || (c =? 12288).

(** The line boundaries of [str.splitlines]. *)
Definition islinebreak (c : char) : bool :=
  ((10 <=? c) && (c <=? 13)) || ((28 <=? c) && (c <=? 30))
  || (c =? 133) || (c =? 8232) || (c =? 8233).

(** [src.lstrip()] *)
Fixpoint lstrip (s : str) : str :=
  match s with
  | [] => []
  | c :: s' => if isspace c then lstrip s' else s
  end.

(** [src.splitlines()]: [cur] is the line being scanned. A line ends at a
    line boundary, CR LF counting as one; the boundary is dropped; text after
    the last boundary is a line when it is not empty. *)
Fixpoint splitlines_from (cur : str) (s : str) : list str :=
  match s with
  | [] => match cur with [] => [] | _ => [cur] end
  | c :: s' =>
      if islinebreak c then
        cur :: match s' with
               | c' :: s'' =>
                   if (c =? 13) && (c' =? 10) then splitlines_from [] s''
                   else splitlines_from [] s'
               | [] => splitlines_from [] s'
               end
      else splitlines_from (cur ++ [c]) s'
  end.

Definition splitlines (s : str) : list str := splitlines_from [] s.

(** ** Regular expressions *)

(** The fragment of [re] syntax that [BITMAP_PATTERN] is written in. *)
Inductive regex : Type :=
| CharClass (cs : list char)   (* [...] *)
| OneOrMore (r : regex)        (* r+ , greedy *)
| Capture (r : regex).         (* (r) *)

(** A match object: the text matched and the text of each group. *)
Record Match : Type := mkMatch { whole : str; groups : list str }.

(** Greedy repetition: apply [step] as long as it consumes something.
    [n] bounds the number of rounds; the text left is enough. *)
Fixpoint repeat_greedy (step : str -> option (Match * str)) (n : nat)
    (m : Match) (s : str) : Match * str :=
  match n with
  | O => (m, s)
  | S n' =>
      match step s with
      | Some (m', s') =>
          match whole m' with
          | [] => (m, s)
          | _ => repeat_greedy step n' (mkMatch (whole m ++ whole m') (groups m')) s'
          end
      | None => (m, s)
      end
  end.

(** Match [r] at the start of [s]: the match and the text left. *)
Fixpoint re_run (r : regex) (s : str) : option (Match * str) :=
  match r with
  | CharClass cs =>
      match s with
      | c :: s' => if existsb (N.eqb c) cs then Some (mkMatch [c] [], s') else None
      | [] => None
      end
  | OneOrMore r' =>
      match re_run r' s with
      | Some (m, s') => Some (repeat_greedy (re_run r') (length s') m s')
      | None => None
      end
  | Capture r' =>
      match re_run r' s with
      | Some (m, s') => Some (mkMatch (whole m) (whole m :: groups m), s')
      | None => None
      end
  end.

(** [pattern.match(line)] *)
Definition re_match (r : regex) (line : str) : option Match :=
  fst <$> re_run r line.

(** ** Exceptions and objects *)

Inductive exn : Type := TypeError | IndexError | OverflowError.

(** [m.group(i)] *)
Definition group (m : Match) (i : nat) : exn + str :=
  match i with
  | O => inr (whole m)
  | S j => match groups m !! j with Some g => inr g | None => inl IndexError end
  end.

(** [functools.reduce(f, xs)] with no initial value. *)
Definition reduce {A : Type} (f : A -> A -> A) (xs : list A) : exn + A :=
  match xs with
  | [] => inl TypeError
  | x :: xs' => inr (fold_left f xs' x)
  end.

Definition bytes := list byte.

(** The [len] low bytes of [n], least significant first. *)
Fixpoint le_bytes (n : N) (len : nat) : option bytes :=
  match len with
  | O => if n =? 0 then Some [] else None
  | S len' =>
      match Byte.of_N (n mod 256), le_bytes (n / 256) len' with
      | Some b, Some bs => Some (b :: bs)
      | _, _ => None
      end
  end.

(** [n.to_bytes(len, byteorder='little')] on a non-negative int. *)
Definition to_bytes (n : N) (len : nat) : exn + bytes :=
  match le_bytes n len with
  | Some bs => inr bs
  | None => inl OverflowError
  end.

(** ** The interpreter's store *)

(** The list objects of the running program, by address. [compile] keeps
    its [result] in one: a list of [bytes] objects. *)
Definition loc := nat.
Abbreviation heap := (gmap loc (list bytes)).

(** A computation reads and updates the store, and returns or raises. *)
Definition M (A : Type) : Type := heap -> heap * (exn + A).

Definition ret {A : Type} (a : A) : M A := fun h => (h, inr a).

Definition raise {A : Type} (e : exn) : M A := fun h => (h, inl e).

Definition bind {A B : Type} (k : A -> M B) (c : M A) : M B :=
  fun h =>
    match c h with
    | (h', inr a) => k a h'
    | (h', inl e) => (h', inl e)
    end.

#[global] Instance M_ret : MRet M := @ret.
#[global] Instance M_bind : MBind M := @bind.

(** An expression that touches no object. *)
Definition eval {A : Type} (v : exn + A) : M A :=
  match v with
  | inr a => ret a
  | inl e => raise e
  end.

(** [[]]: a new list object. *)
Definition new_list : M loc :=
  fun h => let a := fresh (dom h) in (<[a := []]> h, inr a).

(** [l.append(x)] *)
Definition list_append (l : loc) (x : bytes) : M unit :=
  fun h => (alter (fun xs => xs ++ [x]) l h, inr tt).

(** [b''.join(l)] *)
Definition bytes_join (l : loc) : M bytes :=
  fun h => (h, inr (concat (default [] (h !! l)))).

(** [for x in xs: body] *)
Fixpoint for_each {A : Type} (xs : list A) (body : A -> M unit) : M unit :=
  match xs with
  | [] => ret tt
  | x :: xs' => body x;; for_each xs' body
  end.

(** ** makefont.py *)

(** [BITMAP_PATTERN = re.compile(r'([.*@]+)')] *)
Definition BITMAP_PATTERN : regex :=
  Capture (OneOrMore (CharClass [DOT; STAR; AT])).

(** The body of the loop of [compile], for the list object [result]. *)
Definition compile_line (result : loc) (line : str) : M unit :=
  match re_match BITMAP_PATTERN line with
  | None => ret tt
  | Some m =>
      g ← eval (group m 1);
      let bits := map (fun x => if x =? DOT then 0 else 1) g in
      bits_int ← eval (reduce (fun a b => 2 * a + b) bits);
      b ← eval (to_bytes bits_int 1);
      list_append result b
  end.

Definition compile_st (src : str) : M bytes :=
  let src := lstrip src in
  result ← new_list;
  for_each (splitlines src) (compile_line result);;
  bytes_join result.

(** [compile(src)], called in any store: what it returns or raises. *)
Definition compile (src : str) : exn + bytes := snd (compile_st src ∅).

(** ** The vocabulary of the specification *)

(** A line break, for writing documents as literals. *)
Definition NL : string := String "010"%char EmptyString.

(** The recognized symbols, and those that stand for a lit pixel. *)
Definition symbol (c : char) : Prop := c = DOT \/ c = STAR \/ c = AT.
Definition on_symbol (c : char) : Prop := c = STAR \/ c = AT.

Definition is_symbol (c : char) : bool := (c =? DOT) || (c =? STAR) || (c =? AT).

(** [s] is the maximal leading run of recognized symbols of [line]. *)
Definition maximal_leading_run (s line : str) : Prop :=
  exists rest, line = s ++ rest /\ Forall symbol s /\
    match rest with [] => True | c :: _ => ~ symbol c end.

(** The first character of the line is a recognized symbol. *)
Definition starts_with_symbol (line : str) : bool :=
  match line with
  | [] => false
  | c :: _ => is_symbol c
  end.

(** Specification: ['.'] is 0, ['*'] and ['@'] are 1. *)
Definition spec_bit (c : char) : N := if (c =? STAR) || (c =? AT) then 1 else 0.

(** Specification: [value = 0; for each bit b: value = value*2 + b]. *)
Definition spec_binary_value (s : str) : N :=
  fold_left (fun value b => value * 2 + b) (map spec_bit s) 0.

(** Two characters that are the same, or both a lit symbol; two texts that
    differ only in which of ['*'] and ['@'] stands at some places. *)
Definition same_lit (a b : char) : Prop :=
  a = b \/ (on_symbol a /\ on_symbol b).

Definition swap_equiv (s s' : str) : Prop := Forall2 same_lit s s'.

(** ** Rows and documents *)

(** ['*'] or ['@']. *)
Definition is_lit (c : char) : bool := (c =? STAR) || (c =? AT).

(** The leading run of recognized symbols of a line, and its value. *)
Fixpoint leading_run (line : str) : str :=
  match line with
  | [] => []
  | c :: line' => if is_symbol c then c :: leading_run line' else []
  end.

Definition row_value (line : str) : N := spec_binary_value (leading_run line).

(** A document written line by line, each line ended by [sep]. *)
Definition unlines (sep : str) (lines : list str) : str :=
  concat (map (fun line => line ++ sep) lines).

Definition LF : char := 10.
Definition CR : char := 13.

(** What may end a line: CR LF, or one line boundary. *)
Definition line_end (sep : str) : Prop :=
  sep = [CR; LF] \/ exists b, sep = [b] /\ islinebreak b = true.

(** Two outcomes of [compile] one after the other. *)
Definition outcome_app (r1 r2 : exn + bytes) : exn + bytes :=
  match r1 with
  | inl e => inl e
  | inr bs1 => match r2 with inl e => inl e | inr bs2 => inr (bs1 ++ bs2) end
  end.

(** ** main *)

(** [ns] as [parser.parse_args()] leaves it: the positional [font] and the
    option [-o], which is ['font.out'] when not given. The parsing of the
    command line itself is argparse's and is not modelled. *)
Record Namespace : Type := mkNamespace { ns_font : string; ns_o : string }.

(** The subclasses of [OSError] that [open] raises. *)
Inductive os_error : Type :=
| FileNotFoundError
| PermissionError
| IsADirectoryError
| NotADirectoryError
| OtherOSError.

(** What [main] can raise: [open] failing, [font.read()] failing to decode,
    and what [compile] raises. *)
Inductive main_exn : Type :=
| OSError (e : os_error)
| UnicodeDecodeError
| Raised (e : exn).

(** The regular files with their contents, each under the name of the file
    itself: paths that lead to one file ([x] and [./x], an absolute path, a
    link) lead to one name. *)
Abbreviation files := (gmap string bytes).

Section Main.
(** The environment: the file a path leads to; the error, if any, that
    [open(path, 'wb')] raises (a missing directory, no permission, a
    directory); the error, if any, that [open(path)] raises on something
    that is there (no permission, a directory); and how text mode decodes
    the bytes of a file (the codec of the locale and the translation of
    line ends). *)
Variable resolve : string -> string.
Variable wb_error : string -> option os_error.
Variable r_error : string -> option os_error.
Variable decode : bytes -> option str.

(** [open(path, 'wb')]: the file is created, or emptied, at once. *)
Definition open_wb (path : string) (fs : files) : files * (main_exn + unit) :=
  match wb_error path with
  | Some e => (fs, inl (OSError e))
  | None => (<[resolve path := []]> fs, inr tt)
  end.

(** [open(path)] and [font.read()] *)
Definition read_text (path : string) (fs : files) : main_exn + str :=
  match r_error path with
  | Some e => inl (OSError e)
  | None =>
      match fs !! resolve path with
      | None => inl (OSError FileNotFoundError)
      | Some content =>
          match decode content with
          | None => inl UnicodeDecodeError
          | Some src => inr src
          end
      end
  end.

(** The with-statement of [main]: [out] is opened, then [font]; the text is
    read and compiled, the bytes are written; both files are closed on the
    way out, also when something is raised. *)
Definition main_with (ns : Namespace) (fs : files) : files * (main_exn + unit) :=
  match open_wb (ns_o ns) fs with
  | (fs1, inl e) => (fs1, inl e)
  | (fs1, inr _) =>
      match read_text (ns_font ns) fs1 with
      | inl e => (fs1, inl e)
      | inr src =>
          match compile src with
          | inl e => (fs1, inl (Raised e))
          | inr data => (<[resolve (ns_o ns) := data]> fs1, inr tt)
          end
      end
  end.
End Main.

(** A path resolution for examples: a leading [./] is dropped. *)
Definition drop_dot_slash (path : string) : string :=
  match path with
  | String "."%char (String "/"%char rest) => rest
  | _ => path
  end.

(** ** A functional description of the loop *)

(** What one round of the loop adds to [result]. *)
Definition line_bytes (line : str) : exn + option bytes :=
  match re_match BITMAP_PATTERN line with
  | None => inr None
  | Some m =>
      match group m 1 with
      | inl e => inl e
      | inr g =>
          match reduce (fun a b => 2 * a + b)
                       (map (fun x => if x =? DOT then 0 else 1) g) with
          | inl e => inl e
          | inr bits_int =>
              match to_bytes bits_int 1 with
              | inl e => inl e
              | inr b => inr (Some b)
              end
          end
      end
  end.

(** What the whole loop leaves in [result], started at [acc]. *)
Fixpoint lines_bytes (lines : list str) (acc : list bytes) : exn + list bytes :=
  match lines with
  | [] => inr acc
  | line :: lines' =>
      match line_bytes line with
      | inl e => inl e
      | inr None => lines_bytes lines' acc
      | inr (Some b) => lines_bytes lines' (acc ++ [b])
      end
  end.

(** ** The loop and its store *)

Section Store.
Implicit Types (h : heap) (result : loc) (acc : list bytes).

Lemma alter_append h result acc (b : bytes) :
  h !! result = Some acc ->
  alter (fun xs => xs ++ [b]) result h = <[result := acc ++ [b]]> h.
Proof.
  intros Hacc. apply map_eq. intros a.
  destruct (decide (result = a)) as [->|Hne].
  - rewrite lookup_alter_eq, lookup_insert_eq, Hacc. reflexivity.
  - rewrite lookup_alter_ne, lookup_insert_ne by done. reflexivity.
Qed.

(** One round of the loop follows [line_bytes] and touches [result] only. *)
Lemma compile_line_run result line h :
  compile_line result line h =
    match line_bytes line with
    | inl e => (h, inl e)
    | inr None => (h, inr tt)
    | inr (Some b) => (alter (fun xs => xs ++ [b]) result h, inr tt)
    end.
Proof.
  unfold compile_line, line_bytes.
  destruct (re_match BITMAP_PATTERN line) as [m|]; [|reflexivity].
  unfold mbind, M_bind, bind.
  destruct (group m 1) as [e|g]; simpl; [reflexivity|].
  destruct (reduce _ _) as [e|n]; simpl; [reflexivity|].
  destruct (to_bytes n 1) as [e|b]; reflexivity.
Qed.

(** The loop follows [lines_bytes]; whether it ends or raises, the store
    differs from the one it started in at [result] only. *)
Lemma for_each_run result lines : forall h acc,
  h !! result = Some acc ->
  exists acc',
    for_each lines (compile_line result) h =
      (<[result := acc']> h,
       match lines_bytes lines acc with inl e => inl e | inr _ => inr tt end)
    /\ (forall out, lines_bytes lines acc = inr out -> acc' = out).
Proof.
  induction lines as [|line lines IH]; intros h acc Hacc; simpl.
  - exists acc. split; [|congruence].
    unfold ret. rewrite insert_id by done. reflexivity.
  - unfold mbind, M_bind, bind. rewrite compile_line_run.
    destruct (line_bytes line) as [e|[b|]].
    + exists acc. split; [|congruence]. rewrite insert_id by done. reflexivity.
    + rewrite (alter_append _ _ _ _ Hacc).
      destruct (IH (<[result := acc ++ [b]]> h) (acc ++ [b])) as (acc' & Hrun & Hout).
      { apply lookup_insert_eq. }
      exists acc'. rewrite Hrun, insert_insert_eq. split; [reflexivity|exact Hout].
    + apply IH, Hacc.
Qed.

(** [compile] in any store: a new object is added, nothing else changes,
    and the outcome is that of [lines_bytes] on the lines of the document. *)
Lemma compile_st_run src h :
  exists result acc,
    h !! result = None /\
    compile_st src h =
      (<[result := acc]> h,
       match lines_bytes (splitlines (lstrip src)) [] with
       | inl e => inl e
       | inr out => inr (concat out)
       end).
Proof.
  unfold compile_st, mbind, M_bind, bind, new_list.
  set (a := fresh (dom h)).
  assert (Hfresh : h !! a = None).
  { apply not_elem_of_dom, is_fresh. }
  destruct (for_each_run a (splitlines (lstrip src)) (<[a := []]> h) [])
    as (acc & Hrun & Hout); [apply lookup_insert_eq|].
  exists a, acc. split; [exact Hfresh|].
  rewrite Hrun, insert_insert_eq.
  destruct (lines_bytes _ _) as [e|out]; [reflexivity|].
  unfold bytes_join. rewrite lookup_insert_eq. simpl.
  rewrite (Hout out eq_refl). reflexivity.
Qed.

Lemma compile_eq src :
  compile src =
    match lines_bytes (splitlines (lstrip src)) [] with
    | inl e => inl e
    | inr out => inr (concat out)
    end.
Proof.
  unfold compile. destruct (compile_st_run src ∅) as (a & acc & _ & ->).
  reflexivity.
Qed.
End Store.

(** ** The pattern *)

Section Pattern.
Implicit Types (c : char) (s line rest : str).

Lemma is_symbol_iff c : is_symbol c = true <-> symbol c.
Proof.
  unfold is_symbol, symbol.
  rewrite !orb_true_iff, !N.eqb_eq. tauto.
Qed.

Lemma is_symbol_false c : is_symbol c = false <-> ~ symbol c.
Proof. rewrite <- is_symbol_iff. destruct (is_symbol c); split; congruence. Qed.

Lemma class_is_symbol c : existsb (N.eqb c) [DOT; STAR; AT] = is_symbol c.
Proof. unfold is_symbol. simpl. rewrite orb_false_r, orb_assoc. reflexivity. Qed.

(** Every line has a maximal leading run, and only one. *)
Lemma leading_run_exists line : exists s, maximal_leading_run s line.
Proof.
  induction line as [|c line (s & rest & -> & Hs & Hrest)].
  - exists [], []. repeat split; constructor.
  - destruct (is_symbol c) eqn:Hc.
    + exists (c :: s), rest. apply is_symbol_iff in Hc.
      repeat split; [constructor; assumption|exact Hrest].
    + exists [], (c :: s ++ rest). apply is_symbol_false in Hc.
      repeat split; [constructor|exact Hc].
Qed.

Lemma leading_run_unique s s' line :
  maximal_leading_run s line -> maximal_leading_run s' line -> s = s'.
Proof.
  intros (rest & -> & Hs & Hrest) (rest' & Heq & Hs' & Hrest').
  revert s' Heq Hs'. induction Hs as [|c s Hc Hs IH]; intros s' Heq Hs'.
  - destruct Hs' as [|c' s' Hc' Hs']; [reflexivity|].
    simpl in Heq. subst rest. contradiction.
  - destruct Hs' as [|c' s' Hc' Hs'].
    + simpl in Heq. subst rest'. contradiction.
    + simpl in Heq. injection Heq as -> Heq. f_equal. apply IH; assumption.
Qed.

Lemma re_run_class c s :
  re_run (CharClass [DOT; STAR; AT]) (c :: s)
  = if is_symbol c then Some (mkMatch [c] [], s) else None.
Proof. unfold re_run. rewrite class_is_symbol. reflexivity. Qed.

Lemma re_run_class_nil : re_run (CharClass [DOT; STAR; AT]) [] = None.
Proof. reflexivity. Qed.

Lemma re_run_one_or_more r s :
  re_run (OneOrMore r) s =
    match re_run r s with
    | Some (m, s') => Some (repeat_greedy (re_run r) (length s') m s')
    | None => None
    end.
Proof. reflexivity. Qed.

Lemma re_run_capture r s :
  re_run (Capture r) s =
    match re_run r s with
    | Some (m, s') => Some (mkMatch (whole m) (whole m :: groups m), s')
    | None => None
    end.
Proof. reflexivity. Qed.

(** Greedy repetition of a one-symbol step takes the whole run and stops. *)
Lemma repeat_greedy_symbols step s rest :
  step [] = None ->
  (forall c s', step (c :: s') =
     if is_symbol c then Some (mkMatch [c] [], s') else None) ->
  forall n m,
  Forall symbol s ->
  match rest with [] => True | c :: _ => ~ symbol c end ->
  (length (s ++ rest) <= n)%nat ->
  groups m = [] ->
  repeat_greedy step n m (s ++ rest) = (mkMatch (whole m ++ s) [], rest).
Proof.
  intros Hnil Hcons.
  induction s as [|c s IH]; intros n m Hs Hrest Hn Hm.
  - rewrite app_nil_r. destruct m as [w gs]. simpl in Hm. subst gs.
    destruct n as [|n]; [reflexivity|]. cbn [repeat_greedy app].
    destruct rest as [|c rest]; [rewrite Hnil; reflexivity|].
    rewrite Hcons.
    apply is_symbol_false in Hrest. rewrite Hrest. reflexivity.
  - inversion Hs as [|? ? Hc Hs']; subst.
    destruct n as [|n]; [simpl in Hn; lia|].
    cbn [repeat_greedy app]. rewrite Hcons.
    apply is_symbol_iff in Hc. rewrite Hc. cbn [whole groups].
    rewrite IH; [|assumption|assumption|simpl in *; lia|reflexivity].
    cbn [whole]. rewrite <- app_assoc. reflexivity.
Qed.

(** [BITMAP_PATTERN.match(line)] is the maximal leading run of the line,
    also as its group 1, when the run is not empty, and [None] otherwise. *)
Lemma re_match_run s line :
  maximal_leading_run s line ->
  re_match BITMAP_PATTERN line =
    match s with
    | [] => None
    | _ => Some (mkMatch s [s])
    end.
Proof.
  intros (rest & -> & Hs & Hrest).
  unfold re_match, BITMAP_PATTERN.
  rewrite re_run_capture, re_run_one_or_more.
  destruct Hs as [|c s Hc Hs].
  - cbn [app]. destruct rest as [|c rest]; [reflexivity|].
    rewrite re_run_class.
    apply is_symbol_false in Hrest. rewrite Hrest. reflexivity.
  - cbn [app]. rewrite re_run_class.
    apply is_symbol_iff in Hc. rewrite Hc.
    rewrite (repeat_greedy_symbols _ s rest re_run_class_nil re_run_class);
      [reflexivity|assumption|assumption|lia|reflexivity].
Qed.
End Pattern.

(** ** Packing a run *)

Section Packing.
Implicit Types (c : char) (s line : str) (n v : N).

Lemma spec_bit_on c : spec_bit c = 1 <-> on_symbol c.
Proof.
  unfold spec_bit, on_symbol.
  destruct ((c =? STAR) || (c =? AT)) eqn:E.
  - apply orb_true_iff in E. rewrite !N.eqb_eq in E. tauto.
  - apply orb_false_iff in E. rewrite !N.eqb_neq in E.
    split; [discriminate|tauto].
Qed.

Lemma spec_bit_off c : spec_bit c = 0 <-> ~ on_symbol c.
Proof.
  rewrite <- spec_bit_on. unfold spec_bit.
  destruct ((c =? STAR) || (c =? AT)); split; intros; try congruence; lia.
Qed.

Lemma spec_bit_le c : spec_bit c <= 1.
Proof. unfold spec_bit. destruct ((c =? STAR) || (c =? AT)); lia. Qed.

(** On recognized symbols the bit of the code is the bit of the
    specification. *)
Lemma bits_spec s :
  Forall symbol s ->
  map (fun x => if x =? DOT then 0 else 1) s = map spec_bit s.
Proof.
  induction 1 as [|c s Hc _ IH]; [reflexivity|].
  simpl. rewrite IH. f_equal.
  destruct Hc as [->|[->| ->]]; reflexivity.
Qed.

Lemma spec_fold_from (bs : list N) : forall v,
  fold_left (fun value b => value * 2 + b) bs v
  = v * 2 ^ N.of_nat (length bs)
    + fold_left (fun value b => value * 2 + b) bs 0.
Proof.
  induction bs as [|b bs IH]; intros v.
  - simpl. lia.
  - cbn [fold_left length]. rewrite (IH (v * 2 + b)), (IH (0 * 2 + b)).
    rewrite Nat2N.inj_succ, N.pow_succ_r'. lia.
Qed.

Lemma spec_binary_value_nil : spec_binary_value [] = 0.
Proof. reflexivity. Qed.

Lemma spec_binary_value_cons c s :
  spec_binary_value (c :: s)
  = spec_bit c * 2 ^ N.of_nat (length s) + spec_binary_value s.
Proof.
  unfold spec_binary_value. cbn [map fold_left].
  rewrite spec_fold_from, length_map. lia.
Qed.

Lemma spec_binary_value_app s1 s2 :
  spec_binary_value (s1 ++ s2)
  = spec_binary_value s1 * 2 ^ N.of_nat (length s2) + spec_binary_value s2.
Proof.
  unfold spec_binary_value.
  rewrite map_app, fold_left_app, spec_fold_from, length_map. reflexivity.
Qed.

(** A run of [k] symbols packs to less than [2^k]. *)
Lemma spec_binary_value_lt s :
  spec_binary_value s < 2 ^ N.of_nat (length s).
Proof.
  induction s as [|c s IH]; [reflexivity|].
  rewrite spec_binary_value_cons. cbn [length].
  rewrite Nat2N.inj_succ, N.pow_succ_r'.
  pose proof (spec_bit_le c). nia.
Qed.

Lemma spec_binary_value_byte s :
  (length s <= 8)%nat -> spec_binary_value s < 256.
Proof.
  intros Hlen. pose proof (spec_binary_value_lt s) as Hlt.
  assert (2 ^ N.of_nat (length s) <= 2 ^ 8).
  { apply N.pow_le_mono_r; lia. }
  change (2 ^ 8) with 256 in *. lia.
Qed.

(** A run packs to zero exactly when none of its symbols is lit. *)
Lemma spec_binary_value_zero s :
  spec_binary_value s = 0 <-> Forall (fun c => ~ on_symbol c) s.
Proof.
  induction s as [|c s IH].
  - split; [constructor|reflexivity].
  - rewrite spec_binary_value_cons, Forall_cons, <- IH, <- spec_bit_off.
    assert (0 < 2 ^ N.of_nat (length s)) by (apply N.neq_0_lt_0, N.pow_nonzero; lia).
    split; [nia|intros [-> ->]; lia].
Qed.

Lemma fold_double_comm (bs : list N) : forall v,
  fold_left (fun a b => 2 * a + b) bs v
  = fold_left (fun value b => value * 2 + b) bs v.
Proof.
  induction bs as [|b bs IH]; intros v; [reflexivity|].
  cbn [fold_left]. rewrite IH. f_equal. lia.
Qed.

(** [reduce] starts from the first bit; the specification starts from 0. *)
Lemma reduce_spec s :
  s <> [] -> Forall symbol s ->
  reduce (fun a b => 2 * a + b) (map (fun x => if x =? DOT then 0 else 1) s)
  = inr (spec_binary_value s).
Proof.
  intros Hne Hs. rewrite (bits_spec s Hs).
  destruct s as [|c s]; [congruence|].
  unfold reduce, spec_binary_value. cbn [map fold_left]. f_equal.
  rewrite N.mul_0_l, N.add_0_l. apply fold_double_comm.
Qed.

(** [n.to_bytes(1, ...)]: the byte [n], or an overflow from 256 on. *)
Lemma to_bytes_one n :
  to_bytes n 1 =
    match Byte.of_N n with
    | Some b => inr [b]
    | None => inl OverflowError
    end.
Proof.
  unfold to_bytes. cbn [le_bytes].
  destruct (N.lt_ge_cases n 256) as [Hlt|Hge].
  - rewrite N.mod_small, N.div_small by exact Hlt.
    destruct (Byte.of_N n); reflexivity.
  - assert (Hn : Byte.of_N n = None) by (apply Byte.of_N_None_iff; lia).
    rewrite Hn.
    assert (n / 256 <> 0).
    { intros Hz. apply N.div_small_iff in Hz; lia. }
    destruct (N.eqb_spec (n / 256) 0); [contradiction|].
    destruct (Byte.of_N (n mod 256)); reflexivity.
Qed.

Lemma of_N_small n :
  n < 256 -> exists b, Byte.of_N n = Some b /\ Byte.to_N b = n.
Proof.
  intros Hlt. destruct (Byte.of_N n) as [b|] eqn:E.
  - exists b. split; [reflexivity|]. apply Byte.to_of_N, E.
  - apply Byte.of_N_None_iff in E. lia.
Qed.

Lemma of_N_big n : 256 <= n -> Byte.of_N n = None.
Proof. intros Hge. apply Byte.of_N_None_iff. lia. Qed.

(** One round of the loop, by the maximal leading run of the line. *)
Lemma line_bytes_run s line :
  maximal_leading_run s line ->
  line_bytes line =
    match s with
    | [] => inr None
    | _ =>
        match Byte.of_N (spec_binary_value s) with
        | Some b => inr (Some [b])
        | None => inl OverflowError
        end
    end.
Proof.
  intros Hrun. unfold line_bytes. rewrite (re_match_run s line Hrun).
  destruct s as [|c s]; [reflexivity|].
  destruct Hrun as (rest & _ & Hs & _).
  cbn [group groups lookup list_lookup].
  rewrite reduce_spec by (congruence || assumption).
  rewrite to_bytes_one.
  destruct (Byte.of_N _); reflexivity.
Qed.
End Packing.

(** ** Lines of a document *)

Section Lines.
Implicit Types (c : char) (s line cur : str) (lines : list str).

Lemma symbol_not_space c : symbol c -> isspace c = false.
Proof. intros [->|[->| ->]]; reflexivity. Qed.

Lemma symbol_not_linebreak c : symbol c -> islinebreak c = false.
Proof. intros [->|[->| ->]]; reflexivity. Qed.

Lemma space_not_symbol c : isspace c = true -> is_symbol c = false.
Proof.
  intros Hsp. apply is_symbol_false. intros Hc.
  rewrite (symbol_not_space c Hc) in Hsp. discriminate.
Qed.

Lemma lstrip_spaces w s :
  Forall (fun c => isspace c = true) w -> lstrip (w ++ s) = lstrip s.
Proof.
  induction 1 as [|c w Hc _ IH]; [reflexivity|].
  simpl. rewrite Hc. exact IH.
Qed.

Lemma lstrip_stop c s : isspace c = false -> lstrip (c :: s) = c :: s.
Proof. intros Hc. simpl. rewrite Hc. reflexivity. Qed.

Lemma lstrip_all_spaces w :
  Forall (fun c => isspace c = true) w -> lstrip w = [].
Proof.
  intros Hw. rewrite <- (app_nil_r w). rewrite lstrip_spaces by exact Hw.
  reflexivity.
Qed.

(** A text with no line boundary in it is one line, or none when empty. *)
Lemma splitlines_from_one_line s : forall cur,
  Forall (fun c => islinebreak c = false) s ->
  splitlines_from cur s = match cur ++ s with [] => [] | l => [l] end.
Proof.
  induction s as [|c s IH]; intros cur Hs.
  - rewrite app_nil_r. destruct cur; reflexivity.
  - inversion Hs as [|? ? Hc Hs']; subst.
    cbn [splitlines_from]. rewrite Hc, IH by exact Hs'.
    rewrite <- app_assoc. reflexivity.
Qed.

Lemma splitlines_one_line c s :
  Forall (fun c => islinebreak c = false) (c :: s) ->
  splitlines (c :: s) = [c :: s].
Proof.
  intros Hs. unfold splitlines. rewrite splitlines_from_one_line by exact Hs.
  reflexivity.
Qed.

Lemma starts_with_symbol_run s line :
  maximal_leading_run s line ->
  starts_with_symbol line = match s with [] => false | _ => true end.
Proof.
  intros (rest & -> & Hs & Hrest).
  destruct Hs as [|c s Hc Hs]; simpl.
  - destruct rest as [|c rest]; [reflexivity|]. apply is_symbol_false, Hrest.
  - apply is_symbol_iff, Hc.
Qed.

(** A line that does not start with a symbol adds nothing. *)
Lemma line_bytes_skip line :
  starts_with_symbol line = false -> line_bytes line = inr None.
Proof.
  intros Hline. destruct (leading_run_exists line) as (s & Hrun).
  rewrite (line_bytes_run s line Hrun).
  rewrite (starts_with_symbol_run s line Hrun) in Hline.
  destruct s; [reflexivity|discriminate].
Qed.

(** A line that starts with a symbol adds one byte or raises an overflow. *)
Lemma line_bytes_symbol line :
  starts_with_symbol line = true ->
  line_bytes line = inl OverflowError \/
  exists b, line_bytes line = inr (Some [b]).
Proof.
  intros Hline. destruct (leading_run_exists line) as (s & Hrun).
  rewrite (line_bytes_run s line Hrun).
  rewrite (starts_with_symbol_run s line Hrun) in Hline.
  destruct s; [discriminate|].
  destruct (Byte.of_N _) as [b|]; [right; exists b; reflexivity|left; reflexivity].
Qed.

(** The loop adds one byte for each line that starts with a symbol. *)
Lemma lines_bytes_length lines : forall acc out,
  lines_bytes lines acc = inr out ->
  length (concat out)
  = (length (concat acc) + length (List.filter starts_with_symbol lines))%nat.
Proof.
  induction lines as [|line lines IH]; intros acc out Hout.
  - simpl in *. injection Hout as <-. lia.
  - cbn [lines_bytes List.filter] in *.
    destruct (starts_with_symbol line) eqn:Hline.
    + destruct (line_bytes_symbol line Hline) as [E|[b E]];
        rewrite E in Hout; [discriminate|].
      rewrite (IH _ _ Hout), concat_app, length_app. simpl. lia.
    + rewrite (line_bytes_skip line Hline) in Hout. exact (IH _ _ Hout).
Qed.

(** The loop ends when every run packs to less than 256, and raises an
    overflow as soon as one does not. *)
Lemma lines_bytes_fit lines : forall acc,
  (forall line s, line ∈ lines -> maximal_leading_run s line ->
     spec_binary_value s < 256) ->
  exists out, lines_bytes lines acc = inr out.
Proof.
  induction lines as [|line lines IH]; intros acc Hfit.
  - exists acc. reflexivity.
  - cbn [lines_bytes].
    destruct (leading_run_exists line) as (s & Hrun).
    rewrite (line_bytes_run s line Hrun).
    assert (Hrest : forall line' s', line' ∈ lines ->
              maximal_leading_run s' line' -> spec_binary_value s' < 256).
    { intros line' s' Hin. apply Hfit. right. exact Hin. }
    destruct s as [|c s]; [apply IH, Hrest|].
    destruct (of_N_small (spec_binary_value (c :: s))) as (b & -> & _).
    { apply (Hfit line); [left|exact Hrun]. }
    apply IH, Hrest.
Qed.

Lemma lines_bytes_overflow lines : forall acc,
  (exists line s, line ∈ lines /\ maximal_leading_run s line /\
     256 <= spec_binary_value s) ->
  lines_bytes lines acc = inl OverflowError.
Proof.
  induction lines as [|line lines IH]; intros acc (line' & s' & Hin & Hrun' & Hbig).
  - inversion Hin.
  - cbn [lines_bytes].
    destruct (leading_run_exists line) as (s & Hrun).
    rewrite (line_bytes_run s line Hrun).
    destruct (spec_binary_value_zero []) as [_ Hnil].
    inversion Hin as [? ? |? ? ? Hin']; subst.
    + rewrite (leading_run_unique s s' line Hrun Hrun').
      destruct s' as [|c s']; [rewrite spec_binary_value_nil in Hbig; lia|].
      rewrite (of_N_big _ Hbig). reflexivity.
    + assert (Hlater : lines_bytes lines acc = inl OverflowError
                       /\ forall b, lines_bytes lines (acc ++ [b]) = inl OverflowError).
      { split; [|intros b]; apply IH; exists line', s'; auto. }
      destruct Hlater as [H0 H1].
      destruct s as [|c s]; [exact H0|].
      destruct (Byte.of_N _); [apply H1|reflexivity].
Qed.
End Lines.

(** ** Rows of at most eight symbols *)

(** C1. A line whose maximal leading run [s] of ['.'], ['*'], ['@'] has at
    most 8 symbols (and at least one, so that the line has a run) adds to
    [result] exactly one byte, whose value is [s] read as a binary number
    with ['.'] = 0, ['*'] and ['@'] = 1, first symbol most significant
    ([value = 0; value = value*2 + b] for each bit); and [compile] of a
    document that is this one line returns that byte alone. *)
Theorem compile_line_packs_run (result : loc) (line s : str) (h : heap)
    (acc : list bytes) :
  h !! result = Some acc ->
  maximal_leading_run s line -> s <> [] -> (length s <= 8)%nat ->
  exists b : byte,
    Byte.to_N b = spec_binary_value s /\
    compile_line result line h = (<[result := acc ++ [[b]]]> h, inr tt) /\
    (Forall (fun c => islinebreak c = false) line -> compile line = inr [b]).
Proof.
  intros Hacc Hrun Hne Hlen.
  destruct (of_N_small (spec_binary_value s)) as (b & Hb & Hval).
  { apply spec_binary_value_byte, Hlen. }
  assert (Hline : line_bytes line = inr (Some [b])).
  { rewrite (line_bytes_run s line Hrun), Hb. destruct s; [congruence|reflexivity]. }
  exists b. split; [exact Hval|]. split.
  - rewrite compile_line_run, Hline, (alter_append _ _ _ _ Hacc). reflexivity.
  - intros Hbreaks. rewrite compile_eq.
    destruct Hrun as (rest & -> & Hs & _).
    destruct s as [|c s]; [congruence|].
    inversion Hs as [|? ? Hc _]; subst.
    rewrite <- app_comm_cons in *.
    rewrite lstrip_stop by (apply symbol_not_space, Hc).
    rewrite splitlines_one_line by exact Hbreaks.
    cbn [lines_bytes]. rewrite Hline. reflexivity.
Qed.

Lemma compile_line_packs_run_witness :
  exists b : byte,
    Byte.to_N b = spec_binary_value (text ".*") /\
    compile_line 0%nat (text ".*x") {[0%nat := []]}
    = (<[0%nat := [] ++ [[b]]]> {[0%nat := []]}, inr tt) /\
    compile (text ".*x") = inr [b].
Proof.
  destruct (compile_line_packs_run 0%nat (text ".*x") (text ".*")
              {[0%nat := []]} []) as (b & Hval & Hline & Hdoc).
  - reflexivity.
  - exists (text "x"). split; [reflexivity|]. split.
    + repeat constructor; unfold symbol; vm_compute; tauto.
    + vm_compute. intros [H|[H|H]]; discriminate H.
  - discriminate.
  - vm_compute. lia.
  - exists b. split; [exact Hval|]. split; [exact Hline|].
    apply Hdoc. repeat constructor.
Defined.

(** ** Counting rows *)

(** C2. The bytes [compile] returns are as many as the lines of the
    document, stripped of its leading whitespace, whose first character is
    ['.'], ['*'] or ['@']; a line whose first character is none of these, an
    empty line too, is skipped: the round leaves [result] and the store as
    they were and raises nothing. [compile] does return when every run has
    at most 8 symbols. *)
Theorem compile_counts_rows (src : str) :
  (forall bs, compile src = inr bs ->
     length bs
     = length (List.filter starts_with_symbol (splitlines (lstrip src)))) /\
  (forall (result : loc) (line : str) (h : heap),
     starts_with_symbol line = false ->
     compile_line result line h = (h, inr tt)) /\
  ((forall line s, line ∈ splitlines (lstrip src) ->
      maximal_leading_run s line -> (length s <= 8)%nat) ->
   exists bs, compile src = inr bs).
Proof.
  split; [|split].
  - intros bs. rewrite compile_eq.
    destruct (lines_bytes _ _) as [e|out] eqn:Hout; [discriminate|].
    intros [= <-]. rewrite (lines_bytes_length _ _ _ Hout). reflexivity.
  - intros result line h Hline.
    rewrite compile_line_run, (line_bytes_skip line Hline). reflexivity.
  - intros Hfit. rewrite compile_eq.
    destruct (lines_bytes_fit (splitlines (lstrip src)) []) as (out & ->).
    + intros line s Hin Hrun. apply spec_binary_value_byte. eauto.
    + eauto.
Qed.

Lemma compile_counts_rows_witness :
  length [x02]
  = length (List.filter starts_with_symbol
              (splitlines (lstrip (text ("#" ++ NL ++ "*."))))) /\
  compile_line 0%nat (text "# x") ∅ = (∅, inr tt) /\
  exists bs, compile (text ("#" ++ NL ++ "*.")) = inr bs.
Proof.
  destruct (compile_counts_rows (text ("#" ++ NL ++ "*."))) as (Hlen & Hskip & Hret).
  split; [apply Hlen; vm_compute; reflexivity|].
  split; [apply Hskip; reflexivity|]. apply Hret.
  intros line s Hin (rest & Hline & _ & _).
  apply (f_equal length) in Hline. rewrite length_app in Hline.
  vm_compute in Hin.
  apply elem_of_cons in Hin as [->|Hin]; [simpl in Hline; lia|].
  apply list_elem_of_singleton in Hin as ->. simpl in Hline. lia.
Defined.

(** ** Rows that do not fit a byte *)

(** C3, as stated, fails: a run of nine symbols that starts with a lit one
    packs to 256, and [compile] raises [OverflowError]; the value is not
    wrapped to the byte 0. *)
Lemma compile_wide_row_raises :
  compile (text "*........") = inl OverflowError /\
  compile (text "*........") <> inr [x00].
Proof. split; [vm_compute; reflexivity|vm_compute; discriminate]. Qed.

(** C3, amended. [compile] raises nothing on a document whose runs all pack
    to less than 256, as every run of at most 8 symbols does: rows that
    match nothing are skipped. A run that packs to 256 or more is not
    truncated: [compile] raises [OverflowError]. *)
Theorem compile_raises_only_overflow (src : str) :
  ((forall line s, line ∈ splitlines (lstrip src) ->
      maximal_leading_run s line -> spec_binary_value s < 256) ->
   exists bs, compile src = inr bs) /\
  (forall s, (length s <= 8)%nat -> spec_binary_value s < 256) /\
  ((exists line s, line ∈ splitlines (lstrip src) /\
      maximal_leading_run s line /\ 256 <= spec_binary_value s) ->
   compile src = inl OverflowError).
Proof.
  split; [|split].
  - intros Hfit. rewrite compile_eq.
    destruct (lines_bytes_fit (splitlines (lstrip src)) [] Hfit) as (out & ->).
    eauto.
  - apply spec_binary_value_byte.
  - intros Hbig. rewrite compile_eq.
    rewrite (lines_bytes_overflow (splitlines (lstrip src)) [] Hbig).
    reflexivity.
Qed.

Lemma compile_raises_only_overflow_witness :
  (exists bs, compile [] = inr bs) /\
  spec_binary_value (text "*.*.*.*.") < 256 /\
  compile (text "*........") = inl OverflowError.
Proof.
  split; [|split].
  - apply (compile_raises_only_overflow []).
    intros line s Hin. vm_compute in Hin. inversion Hin.
  - apply (compile_raises_only_overflow []). vm_compute. lia.
  - apply (compile_raises_only_overflow (text "*........")).
    exists (text "*........"), (text "*........").
    split; [vm_compute; left|]. split.
    + exists []. split; [reflexivity|]. split; [|exact I].
      repeat constructor; unfold symbol; vm_compute; tauto.
    + vm_compute. discriminate.
Defined.

(** ** Rows of more than eight symbols *)

Section Wide.
Implicit Types (c : char) (s : str).

Lemma off_or_on s :
  Forall (fun c => ~ on_symbol c) s \/ Exists on_symbol s.
Proof.
  induction s as [|c s [IH|IH]].
  - left. constructor.
  - destruct (N.eq_dec (spec_bit c) 1) as [Hc|Hc].
    + right. left. apply spec_bit_on, Hc.
    + left. constructor; [|exact IH]. rewrite <- spec_bit_on. exact Hc.
  - right. right. exact IH.
Qed.

Lemma off_not_on s :
  Forall (fun c => ~ on_symbol c) s -> ~ Exists on_symbol s.
Proof.
  intros Hoff Hon. induction Hon as [c s Hc|c s _ IH];
    inversion Hoff; subst; auto.
Qed.

Lemma dot_not_on c : c = DOT -> ~ on_symbol c.
Proof. intros -> [H|H]; discriminate H. Qed.

(** A run of more than 8 symbols packs to less than 256 exactly when
    none of the symbols before its last 8 is lit. *)
Lemma wide_run_fits s :
  (8 < length s)%nat ->
  spec_binary_value s < 256 <->
  Forall (fun c => ~ on_symbol c) (take (length s - 8) s).
Proof.
  intros Hlen. set (k := (length s - 8)%nat).
  rewrite <- (take_drop k s) at 1.
  rewrite spec_binary_value_app, <- spec_binary_value_zero.
  assert (Hlow : (length (drop k s) = 8)%nat).
  { rewrite length_drop. unfold k. lia. }
  pose proof (spec_binary_value_byte (drop k s)) as Hfit.
  rewrite Hlow in *. change (2 ^ N.of_nat 8) with 256.
  split; [nia|intros ->; lia].
Qed.
End Wide.

(** [compile] of a document that is one line with a run at its start. *)
Lemma compile_one_line (line s : str) :
  maximal_leading_run s line -> s <> [] ->
  Forall (fun c => islinebreak c = false) line ->
  compile line =
    match Byte.of_N (spec_binary_value s) with
    | Some b => inr [b]
    | None => inl OverflowError
    end.
Proof.
  intros Hrun Hne Hbreaks. rewrite compile_eq.
  assert (Hline := line_bytes_run s line Hrun).
  destruct Hrun as (rest & -> & Hs & _).
  destruct s as [|c s]; [congruence|].
  inversion Hs as [|? ? Hc _]; subst.
  rewrite <- app_comm_cons in *.
  rewrite lstrip_stop by (apply symbol_not_space, Hc).
  rewrite splitlines_one_line by exact Hbreaks.
  cbn [lines_bytes]. rewrite Hline.
  destruct (Byte.of_N _); reflexivity.
Qed.

(** C4. On a line whose maximal leading run has [n > 8] symbols, the round
    raises [OverflowError] if and only if one of the first [n - 8] symbols
    of the run is ['*'] or ['@']; when these are all ['.'], the round adds
    one byte, equal to the binary value of the whole run: nothing is ever
    truncated. So does [compile]: on the document that is this line it
    raises [OverflowError] in the first case and only then, and returns
    that one byte in the second; and it raises [OverflowError] on every
    document that has such an overflowing line among its lines. *)
Theorem compile_line_wide_run (result : loc) (line s : str) (h : heap)
    (acc : list bytes) :
  h !! result = Some acc ->
  maximal_leading_run s line -> (8 < length s)%nat ->
  (compile_line result line h = (h, inl OverflowError) <->
   Exists on_symbol (take (length s - 8) s)) /\
  (Forall (fun c => c = DOT) (take (length s - 8) s) ->
   exists b : byte,
     Byte.to_N b = spec_binary_value s /\
     compile_line result line h = (<[result := acc ++ [[b]]]> h, inr tt) /\
     (Forall (fun c => islinebreak c = false) line -> compile line = inr [b])) /\
  (Forall (fun c => islinebreak c = false) line ->
   (compile line = inl OverflowError <->
    Exists on_symbol (take (length s - 8) s))) /\
  (forall src : str,
     line ∈ splitlines (lstrip src) ->
     Exists on_symbol (take (length s - 8) s) ->
     compile src = inl OverflowError).
Proof.
  intros Hacc Hrun Hlen.
  assert (Hline := line_bytes_run s line Hrun).
  assert (Hfits := wide_run_fits s Hlen).
  assert (Hne : s <> []) by (intros ->; simpl in Hlen; lia).
  assert (Hdoc := compile_one_line line s Hrun Hne).
  assert (Hany : forall src : str,
            line ∈ splitlines (lstrip src) ->
            Exists on_symbol (take (length s - 8) s) ->
            compile src = inl OverflowError).
  { intros src Hin Hon. rewrite compile_eq.
    rewrite (lines_bytes_overflow (splitlines (lstrip src)) []); [reflexivity|].
    exists line, s. split; [exact Hin|]. split; [exact Hrun|].
    apply N.le_ngt. intros Hlt. apply Hfits in Hlt.
    exact (off_not_on _ Hlt Hon). }
  rewrite compile_line_run, Hline.
  destruct s as [|c0 s0] eqn:Es; [congruence|]. rewrite <- Es in *.
  clear Es c0 s0.
  destruct (off_or_on (take (length s - 8) s)) as [Hoff|Hon].
  - destruct (of_N_small (spec_binary_value s)) as (b & Hb & Hval).
    { apply Hfits, Hoff. }
    rewrite Hb in *. rewrite (alter_append _ _ _ _ Hacc).
    split; [|split; [|split]].
    + split; [discriminate|]. intros Hon. destruct (off_not_on _ Hoff Hon).
    + intros _. exists b. split; [exact Hval|]. split; [reflexivity|exact Hdoc].
    + intros Hbreaks. rewrite (Hdoc Hbreaks).
      split; [discriminate|]. intros Hon. destruct (off_not_on _ Hoff Hon).
    + exact Hany.
  - assert (Hbig : 256 <= spec_binary_value s).
    { apply N.le_ngt. intros Hlt. apply Hfits in Hlt.
      exact (off_not_on _ Hlt Hon). }
    rewrite (of_N_big _ Hbig) in *.
    split; [|split; [|split]].
    + split; [intros _; exact Hon|reflexivity].
    + intros Hdots. exfalso. apply (off_not_on (take (length s - 8) s)); [|exact Hon].
      eapply Forall_impl; [exact Hdots|]. intros c. apply dot_not_on.
    + intros Hbreaks. rewrite (Hdoc Hbreaks).
      split; [intros _; exact Hon|reflexivity].
    + exact Hany.
Qed.

Lemma compile_line_wide_run_witness :
  compile_line 0%nat (text "*........!") {[0%nat := [[x01]]]}
  = ({[0%nat := [[x01]]]}, inl OverflowError) /\
  compile (text "*........!") = inl OverflowError /\
  compile (text ("# a" ++ NL ++ "*........!" ++ NL ++ "..")) = inl OverflowError /\
  (exists b : byte,
     Byte.to_N b = spec_binary_value (text "..*......") /\
     compile_line 0%nat (text "..*......!") {[0%nat := [[x01]]]}
     = (<[0%nat := [[x01]] ++ [[b]]]> {[0%nat := [[x01]]]}, inr tt) /\
     compile (text "..*......!") = inr [b]).
Proof.
  assert (Hon : Exists on_symbol
                  (take (length (text "*........") - 8) (text "*........"))).
  { left. left. reflexivity. }
  destruct (compile_line_wide_run 0%nat (text "*........!") (text "*........")
              {[0%nat := [[x01]]]} [[x01]]) as (Hraise & _ & Hdoc & Hany).
  { reflexivity. }
  { exists (text "!"). split; [reflexivity|]. split.
    - repeat constructor; unfold symbol; vm_compute; tauto.
    - vm_compute. intros [H|[H|H]]; discriminate H. }
  { vm_compute. lia. }
  destruct (compile_line_wide_run 0%nat (text "..*......!") (text "..*......")
              {[0%nat := [[x01]]]} [[x01]]) as (_ & Hbyte & _).
  { reflexivity. }
  { exists (text "!"). split; [reflexivity|]. split.
    - repeat constructor; unfold symbol; vm_compute; tauto.
    - vm_compute. intros [H|[H|H]]; discriminate H. }
  { vm_compute. lia. }
  split; [apply Hraise, Hon|].
  split; [apply Hdoc; [repeat constructor|exact Hon]|].
  split.
  - apply Hany; [|exact Hon]. vm_compute. right. left.
  - destruct Hbyte as (b & Hval & Hline & Hcomp); [repeat constructor|].
    exists b. split; [exact Hval|]. split; [exact Hline|].
    apply Hcomp. repeat constructor.
Defined.

(** ** The token of a line *)

(** C5. The token compiled for a line is its longest leading run of
    characters from ['.'], ['*'], ['@']: every line has exactly one such
    run, the match (and its group 1) is that run when it is not empty, and
    the round does with the line what it does with the run alone, whatever
    follows the first character outside the set. So ['..x@@'] gives the byte
    of ['..'], and a line whose first character is outside the set gives
    nothing. *)
Theorem compile_line_longest_run (line : str) :
  exists s,
    maximal_leading_run s line /\
    (forall s', maximal_leading_run s' line -> s' = s) /\
    re_match BITMAP_PATTERN line
    = match s with [] => None | _ => Some (mkMatch s [s]) end /\
    (forall (result : loc) (h : heap),
       s <> [] -> compile_line result line h = compile_line result s h) /\
    (forall (result : loc) (h : heap),
       starts_with_symbol line = false ->
       s = [] /\ compile_line result line h = (h, inr tt)) /\
    compile (text "..x@@") = compile (text "..") /\
    compile (text "..x@@") = inr [x00].
Proof.
  destruct (leading_run_exists line) as (s & Hrun).
  exists s. split; [exact Hrun|]. split; [|split; [|split; [|split]]].
  - intros s' Hrun'. exact (leading_run_unique s' s line Hrun' Hrun).
  - exact (re_match_run s line Hrun).
  - intros result h Hne.
    assert (Hself : maximal_leading_run s s).
    { destruct Hrun as (rest & _ & Hs & _). exists [].
      rewrite app_nil_r. repeat split. exact Hs. }
    rewrite !compile_line_run.
    rewrite (line_bytes_run s line Hrun), (line_bytes_run s s Hself).
    reflexivity.
  - intros result h Hline. split.
    + rewrite (starts_with_symbol_run s line Hrun) in Hline.
      destruct s; [reflexivity|discriminate].
    + rewrite compile_line_run, (line_bytes_skip line Hline). reflexivity.
  - split; vm_compute; reflexivity.
Qed.

Lemma compile_line_longest_run_witness :
  maximal_leading_run (text "..") (text "..x@@") /\
  compile_line 0%nat (text "..x@@") ∅ = compile_line 0%nat (text "..") ∅ /\
  compile_line 0%nat (text "x@@") ∅ = (∅, inr tt).
Proof.
  destruct (compile_line_longest_run (text "..x@@"))
    as (s & Hrun & Huniq & _ & Hsame & _).
  destruct (compile_line_longest_run (text "x@@"))
    as (s0 & _ & _ & _ & _ & Hskip & _).
  assert (Hs : text ".." = s).
  { apply Huniq. exists (text "x@@"). split; [reflexivity|]. split.
    - repeat constructor; unfold symbol; vm_compute; tauto.
    - vm_compute. intros [H|[H|H]]; discriminate H. }
  subst s. split; [exact Hrun|]. split.
  - apply Hsame. discriminate.
  - apply Hskip. reflexivity.
Defined.

(** ** Leading whitespace *)

(** C6. Leading whitespace is stripped from the document as a whole, and
    only there: whitespace [w] put before a document [s] does not change
    what [compile] returns, whitespace alone compiles to no byte, and the
    text from the first character that is not whitespace on is kept as it
    is. Whitespace further on is not trimmed: [" *"] is a row as the first
    line of a document and is skipped as its second line. *)
Theorem compile_leading_whitespace (w s : str) :
  Forall (fun c => isspace c = true) w ->
  compile (w ++ s) = compile s /\
  compile w = inr [] /\
  (forall c, isspace c = false -> lstrip (w ++ c :: s) = c :: s) /\
  compile (text " *") = inr [x01] /\
  compile (text ("#" ++ NL ++ " *")) = inr [].
Proof.
  intros Hw. split; [|split; [|split]].
  - rewrite !compile_eq, (lstrip_spaces w s Hw). reflexivity.
  - rewrite compile_eq, (lstrip_all_spaces w Hw). reflexivity.
  - intros c Hc. rewrite (lstrip_spaces w (c :: s) Hw). apply lstrip_stop, Hc.
  - split; vm_compute; reflexivity.
Qed.

Lemma compile_leading_whitespace_witness :
  compile (text (NL ++ "  " ++ NL) ++ text "*.") = compile (text "*.") /\
  compile (text (NL ++ "  " ++ NL)) = inr [] /\
  lstrip (text (NL ++ "  " ++ NL) ++ STAR :: text " .") = STAR :: text " .".
Proof.
  destruct (compile_leading_whitespace (text (NL ++ "  " ++ NL)) (text "*."))
    as (Hsame & Hnone & _).
  { repeat constructor. }
  destruct (compile_leading_whitespace (text (NL ++ "  " ++ NL)) (text " ."))
    as (_ & _ & Hkeep & _).
  { repeat constructor. }
  split; [exact Hsame|]. split; [exact Hnone|]. apply Hkeep. reflexivity.
Defined.

(** ** The scenarios of the specification *)

(** C7, as stated, fails: the five rows of four symbols do not compile to
    0x00, 0x80, 0x40, 0x20, 0x10. *)
Lemma compile_four_wide_rows_not_padded :
  compile (text ("...." ++ NL ++ "*..." ++ NL ++ ".*.." ++ NL ++ "..*." ++ NL
                 ++ "...*" ++ NL))
  <> inr [x00; x80; x40; x20; x10].
Proof. vm_compute. discriminate. Qed.

(** C7, amended. The five rows of four symbols compile to exactly five
    bytes, 0x00, 0x08, 0x04, 0x02, 0x01 in that order: a run of four symbols
    fills the low four bits. *)
Theorem compile_four_wide_rows :
  compile (text ("...." ++ NL ++ "*..." ++ NL ++ ".*.." ++ NL ++ "..*." ++ NL
                 ++ "...*" ++ NL))
  = inr [x00; x08; x04; x02; x01].
Proof. vm_compute. reflexivity. Qed.

(** C8. A comment line followed by ['@.......'] compiles to the one byte
    0x80: the comment is skipped and the row packs to binary 10000000. *)
Theorem compile_comment_then_row :
  compile (text ("# comment" ++ NL ++ "@......." ++ NL)) = inr [x80] /\
  compile_line 0%nat (text "# comment") ∅ = (∅, inr tt) /\
  spec_binary_value (text "@.......") = 128.
Proof. repeat split; vm_compute; reflexivity. Qed.

(** ** The two lit symbols *)

Section Interchange.
Implicit Types (a b c : char) (s line cur : str) (lines : list str).

Lemma same_lit_test (f : char -> bool) a b :
  f STAR = f AT -> same_lit a b -> f a = f b.
Proof.
  intros Hf [->|[[-> | ->] [-> | ->]]]; congruence.
Qed.

Lemma same_lit_symbol a b : same_lit a b -> symbol a -> symbol b.
Proof.
  intros Hab Ha. apply is_symbol_iff. apply is_symbol_iff in Ha.
  rewrite <- Ha. symmetry. apply same_lit_test; [reflexivity|exact Hab].
Qed.

Lemma same_lit_sym a b : same_lit a b -> same_lit b a.
Proof. intros [->|[Ha Hb]]; [left; reflexivity|right; split; assumption]. Qed.

Lemma same_lit_bit a b : same_lit a b -> spec_bit a = spec_bit b.
Proof.
  intros [->|[[-> | ->] [-> | ->]]]; reflexivity.
Qed.

Lemma swap_equiv_value s s' :
  swap_equiv s s' -> spec_binary_value s = spec_binary_value s'.
Proof.
  intros Hs. unfold spec_binary_value. f_equal.
  induction Hs as [|a b s s' Hab _ IH]; [reflexivity|].
  simpl. rewrite IH, (same_lit_bit a b Hab). reflexivity.
Qed.

Lemma lstrip_swap s s' :
  swap_equiv s s' -> swap_equiv (lstrip s) (lstrip s').
Proof.
  induction 1 as [|a b s s' Hab Hs IH]; [constructor|].
  simpl. rewrite <- (same_lit_test isspace a b eq_refl Hab).
  destruct (isspace a); [exact IH|]. constructor; assumption.
Qed.

Lemma last_line_swap cur cur' :
  swap_equiv cur cur' ->
  Forall2 swap_equiv (match cur with [] => [] | _ => [cur] end)
                     (match cur' with [] => [] | _ => [cur'] end).
Proof.
  intros [|a b s s' Hab Hs]; [constructor|].
  constructor; [constructor; assumption|constructor].
Qed.

Lemma splitlines_from_swap (n : nat) : forall s s' cur cur',
  (length s <= n)%nat ->
  swap_equiv s s' -> swap_equiv cur cur' ->
  Forall2 swap_equiv (splitlines_from cur s) (splitlines_from cur' s').
Proof.
  induction n as [|n IH]; intros s s' cur cur' Hn Hs Hcur.
  - destruct Hs as [|a b s s' Hab Hs]; [|simpl in Hn; lia].
    apply last_line_swap, Hcur.
  - destruct Hs as [|a b s s' Hab Hs].
    + apply last_line_swap, Hcur.
    + cbn [splitlines_from]. simpl in Hn.
      rewrite <- (same_lit_test islinebreak a b eq_refl Hab).
      destruct (islinebreak a).
      * constructor; [exact Hcur|].
        destruct Hs as [|a2 b2 s2 s2' Hab2 Hs2].
        { apply IH; [simpl; lia|constructor|constructor]. }
        rewrite <- (same_lit_test (fun c => c =? 13) a b eq_refl Hab).
        rewrite <- (same_lit_test (fun c => c =? 10) a2 b2 eq_refl Hab2).
        destruct ((a =? 13) && (a2 =? 10)).
        { apply IH; [simpl in Hn; lia|exact Hs2|constructor]. }
        { apply IH; [simpl in *; lia|constructor; assumption|constructor]. }
      * apply IH; [lia|exact Hs|].
        apply Forall2_app; [exact Hcur|].
        constructor; [exact Hab|constructor].
Qed.

Lemma splitlines_swap s s' :
  swap_equiv s s' -> Forall2 swap_equiv (splitlines s) (splitlines s').
Proof.
  intros Hs. apply (splitlines_from_swap (length s)); [lia|exact Hs|constructor].
Qed.

Lemma leading_run_swap s rest line' :
  maximal_leading_run s (s ++ rest) -> swap_equiv (s ++ rest) line' ->
  exists s', swap_equiv s s' /\ maximal_leading_run s' line'.
Proof.
  intros Hrun Hline.
  apply Forall2_app_inv_l in Hline as (s' & rest' & Hs & Hrest & ->).
  exists s'. split; [exact Hs|].
  destruct Hrun as (rest0 & Heq & Hsym & Hstop).
  apply app_inv_head in Heq. subst rest0.
  exists rest'. split; [reflexivity|]. split.
  - clear Hrest Hstop. induction Hs as [|a b s s' Hab Hs IH]; [constructor|].
    inversion Hsym; subst. constructor; [|apply IH; assumption].
    exact (same_lit_symbol a b Hab ltac:(assumption)).
  - destruct Hrest as [|a b rest rest' Hab _]; [exact I|].
    intros Hb. apply Hstop.
    exact (same_lit_symbol b a (same_lit_sym a b Hab) Hb).
Qed.

Lemma line_bytes_swap line line' :
  swap_equiv line line' -> line_bytes line = line_bytes line'.
Proof.
  intros Hline. destruct (leading_run_exists line) as (s & Hrun).
  assert (Hrun0 := Hrun). destruct Hrun0 as (rest & -> & _ & _).
  destruct (leading_run_swap s rest line' Hrun Hline) as (s' & Hs & Hrun').
  rewrite (line_bytes_run s _ Hrun), (line_bytes_run s' _ Hrun').
  rewrite (swap_equiv_value s s' Hs).
  destruct Hs; reflexivity.
Qed.

Lemma lines_bytes_swap lines lines' :
  Forall2 swap_equiv lines lines' ->
  forall acc, lines_bytes lines acc = lines_bytes lines' acc.
Proof.
  induction 1 as [|line line' lines lines' Hline _ IH]; intros acc; [reflexivity|].
  cbn [lines_bytes]. rewrite <- (line_bytes_swap line line' Hline).
  destruct (line_bytes line) as [e|[b|]]; [reflexivity|apply IH|apply IH].
Qed.
End Interchange.

(** C9. ['*'] and ['@'] are interchangeable: writing one for the other at
    any places of a document changes nothing in what [compile] returns or
    raises. *)
Theorem compile_star_at_interchangeable (s s' : str) :
  swap_equiv s s' -> compile s = compile s'.
Proof.
  intros Hs. rewrite !compile_eq.
  rewrite (lines_bytes_swap (splitlines (lstrip s)) (splitlines (lstrip s'))).
  - reflexivity.
  - apply splitlines_swap, lstrip_swap, Hs.
Qed.

Lemma compile_star_at_interchangeable_witness :
  compile (text ("*.@" ++ NL ++ "# *" ++ NL ++ "@@"))
  = compile (text ("@.@" ++ NL ++ "# @" ++ NL ++ "*@")).
Proof.
  apply compile_star_at_interchangeable.
  unfold swap_equiv. vm_compute text.
  repeat (constructor;
          [first [left; reflexivity
                 |right; split; vm_compute; tauto]|]).
  constructor.
Defined.

(** ** Calls of [compile] *)

(** C10. [compile] is deterministic and pure. Called in any store, it
    returns or raises what it does in the empty store; called again on the
    same text in the store the first call left, it gives the same outcome;
    and a call changes no object that was in the store before it: the only
    object it writes to is the [result] list it has made itself. *)
Theorem compile_deterministic_pure (src : str) (h : heap) :
  exists (h1 h2 : heap) (out : exn + bytes),
    compile_st src h = (h1, out) /\
    compile_st src h1 = (h2, out) /\
    out = compile src /\
    (forall h' : heap, snd (compile_st src h') = out) /\
    h ⊆ h1 /\ h1 ⊆ h2.
Proof.
  destruct (compile_st_run src h) as (a1 & acc1 & Hfresh1 & Hrun1).
  destruct (compile_st_run src (<[a1 := acc1]> h)) as (a2 & acc2 & Hfresh2 & Hrun2).
  eexists _, _, _. split; [exact Hrun1|]. split; [exact Hrun2|].
  split; [symmetry; apply compile_eq|]. split.
  - intros h'. destruct (compile_st_run src h') as (a & acc & _ & ->). reflexivity.
  - split; apply insert_subseteq; assumption.
Qed.

(** ** The bytes of a document, row by row *)

Section Rows.
Implicit Types (c : char) (s line : str) (lines : list str).

Lemma leading_run_maximal line : maximal_leading_run (leading_run line) line.
Proof.
induction line as [|c line (rest & Hline & Hs & Hrest)].
- exists []. repeat split; constructor.
- cbn [leading_run]. destruct (is_symbol c) eqn:Hc.
  + exists rest. apply is_symbol_iff in Hc.
    split; [simpl; congruence|]. split; [constructor; assumption|exact Hrest].
  + exists (c :: line). apply is_symbol_false in Hc.
    split; [reflexivity|]. split; [constructor|exact Hc].
Qed.

Lemma leading_run_nil line :
  leading_run line = [] <-> starts_with_symbol line = false.
Proof.
rewrite (starts_with_symbol_run _ _ (leading_run_maximal line)).
destruct (leading_run line); split; congruence.
Qed.

(** One round of the loop, by the value of the row. *)
Lemma line_bytes_value line :
  line_bytes line =
    if starts_with_symbol line then
      match Byte.of_N (row_value line) with
      | Some b => inr (Some [b])
      | None => inl OverflowError
      end
    else inr None.
Proof.
rewrite (line_bytes_run _ _ (leading_run_maximal line)).
rewrite (starts_with_symbol_run _ _ (leading_run_maximal line)).
unfold row_value. destruct (leading_run line); reflexivity.
Qed.

Lemma lines_bytes_outcome lines : forall acc,
  (exists out, lines_bytes lines acc = inr out) \/
  lines_bytes lines acc = inl OverflowError.
Proof.
induction lines as [|line lines IH]; intros acc; cbn [lines_bytes].
- left. eauto.
- rewrite line_bytes_value.
  destruct (starts_with_symbol line); [|apply IH].
  destruct (Byte.of_N _); [apply IH|right; reflexivity].
Qed.

Lemma lines_bytes_values lines : forall acc out,
  lines_bytes lines acc = inr out ->
  map Byte.to_N (concat out)
  = map Byte.to_N (concat acc)
    ++ map row_value (List.filter starts_with_symbol lines).
Proof.
induction lines as [|line lines IH]; intros acc out; cbn [lines_bytes List.filter].
- intros [= <-]. rewrite app_nil_r. reflexivity.
- rewrite line_bytes_value.
  destruct (starts_with_symbol line); [|apply IH].
  destruct (Byte.of_N (row_value line)) as [b|] eqn:Hb; [|discriminate].
  intros Hout. rewrite (IH _ _ Hout), concat_app, map_app, <- app_assoc.
  simpl. apply Byte.to_of_N in Hb. rewrite Hb. reflexivity.
Qed.

(** Starting the loop with something in [result] puts it before what the
    loop adds. *)
Lemma lines_bytes_acc lines : forall acc,
  lines_bytes lines acc =
    match lines_bytes lines [] with
    | inl e => inl e
    | inr out => inr (acc ++ out)
    end.
Proof.
induction lines as [|line lines IH]; intros acc; cbn [lines_bytes].
- rewrite app_nil_r. reflexivity.
- destruct (line_bytes line) as [e|[b|]]; [reflexivity| |apply IH].
  rewrite (IH (acc ++ [b])), (IH ([] ++ [b])).
  destruct (lines_bytes lines []); [reflexivity|].
  rewrite <- app_assoc. reflexivity.
Qed.

Lemma lines_bytes_app lines1 lines2 acc :
  lines_bytes (lines1 ++ lines2) acc =
    match lines_bytes lines1 acc with
    | inl e => inl e
    | inr out => lines_bytes lines2 out
    end.
Proof.
revert acc. induction lines1 as [|line lines1 IH]; intros acc; [reflexivity|].
cbn [lines_bytes app]. destruct (line_bytes line) as [e|[b|]]; [reflexivity|apply IH|apply IH].
Qed.
End Rows.

(** X1. Whatever the document, [compile] returns or raises
    [OverflowError]: [reduce] is never given an empty list and [group(1)]
    always exists, so that neither [TypeError] nor [IndexError] is raised. *)
Theorem compile_returns_or_overflows (src : str) :
  (exists bs, compile src = inr bs) \/ compile src = inl OverflowError.
Proof.
rewrite compile_eq.
destruct (lines_bytes_outcome (splitlines (lstrip src)) []) as [[out ->]| ->].
- left. eauto.
- right. reflexivity.
Qed.

(** X2. The bytes [compile] returns are, in the order of the lines, the
    binary values of the leading runs of the lines that start with a
    symbol. *)
Theorem compile_rows_in_order (src : str) (bs : bytes) :
  compile src = inr bs ->
  map Byte.to_N bs
  = map row_value (List.filter starts_with_symbol (splitlines (lstrip src))).
Proof.
rewrite compile_eq.
destruct (lines_bytes _ _) as [e|out] eqn:Hout; [discriminate|].
intros [= <-]. exact (lines_bytes_values _ _ _ Hout).
Qed.

Lemma compile_rows_in_order_witness :
  map Byte.to_N [x05; x02]
  = map row_value
      (List.filter starts_with_symbol
         (splitlines (lstrip (text ("*.*" ++ NL ++ "# a" ++ NL ++ "*.  x"))))).
Proof.
apply (compile_rows_in_order
         (text ("*.*" ++ NL ++ "# a" ++ NL ++ "*.  x")) [x05; x02]).
vm_compute. reflexivity.
Defined.

(** ** The bits of a row *)

Section Bits.
Implicit Types (c : char) (s line : str) (b v : N) (k i j : nat).

Lemma spec_bit_lit c : spec_bit c = if is_lit c then 1 else 0.
Proof. reflexivity. Qed.

Lemma pow2_pos k : 0 < 2 ^ N.of_nat k.
Proof. apply N.neq_0_lt_0, N.pow_nonzero. lia. Qed.

(** Above a value less than [2^k], the bit [k] is the one put there. *)
Lemma testbit_top b v k :
  b <= 1 -> v < 2 ^ N.of_nat k ->
  N.testbit (b * 2 ^ N.of_nat k + v) (N.of_nat k) = (b =? 1).
Proof.
intros Hb Hv. rewrite N.testbit_eqb.
rewrite N.div_add_l by (apply N.pow_nonzero; lia).
rewrite (N.div_small v) by exact Hv. rewrite N.add_0_r.
assert (Hcases : b = 0 \/ b = 1) by lia.
destruct Hcases as [-> | ->]; reflexivity.
Qed.

Lemma testbit_low b v k i :
  (i < k)%nat ->
  N.testbit (b * 2 ^ N.of_nat k + v) (N.of_nat i) = N.testbit v (N.of_nat i).
Proof.
intros Hi. rewrite !N.testbit_eqb. f_equal.
replace (N.of_nat k) with (N.succ (N.of_nat (k - i - 1)) + N.of_nat i) by lia.
rewrite N.pow_add_r, N.pow_succ_r', N.mul_assoc.
rewrite N.div_add_l by (apply N.pow_nonzero; lia).
rewrite (N.mul_comm 2), N.mul_assoc, N.add_comm.
apply N.Div0.mod_add.
Qed.

Lemma testbit_high v k i :
  v < 2 ^ N.of_nat k -> (k <= i)%nat -> N.testbit v (N.of_nat i) = false.
Proof.
intros Hv Hi. rewrite N.testbit_eqb, N.div_small; [reflexivity|].
assert (2 ^ N.of_nat k <= 2 ^ N.of_nat i) by (apply N.pow_le_mono_r; lia).
lia.
Qed.

(** The symbol at place [j] of a run is the bit [length s - 1 - j] of its
    value. *)
Lemma spec_binary_value_testbit s : forall j c,
  s !! j = Some c ->
  N.testbit (spec_binary_value s) (N.of_nat (length s - 1 - j)) = is_lit c.
Proof.
induction s as [|c0 s IH]; intros j c Hj; [discriminate|].
rewrite spec_binary_value_cons. destruct j as [|j].
- injection Hj as ->. cbn [length].
  replace (S (length s) - 1 - 0)%nat with (length s) by lia.
  rewrite testbit_top by (apply spec_bit_le || apply spec_binary_value_lt).
  rewrite spec_bit_lit. destruct (is_lit c); reflexivity.
- cbn [lookup list_lookup] in Hj.
  assert (Hlt : (j < length s)%nat) by (apply lookup_lt_Some in Hj; exact Hj).
  cbn [length].
  replace (S (length s) - 1 - S j)%nat with (length s - 1 - j)%nat by lia.
  rewrite testbit_low by lia. apply IH, Hj.
Qed.

(** Two runs of the same length have the same value only when they have
    the same bits. *)
Lemma spec_binary_value_inj s : forall s',
  length s = length s' ->
  spec_binary_value s = spec_binary_value s' ->
  map spec_bit s = map spec_bit s'.
Proof.
induction s as [|c s IH]; intros [|c' s'] Hlen Hval; try discriminate; [reflexivity|].
injection Hlen as Hlen.
rewrite !spec_binary_value_cons, <- Hlen in Hval.
pose proof (spec_binary_value_lt s) as Hs.
pose proof (spec_binary_value_lt s') as Hs'. rewrite <- Hlen in Hs'.
pose proof (spec_bit_le c). pose proof (spec_bit_le c').
assert (Hbit : spec_bit c = spec_bit c') by nia.
rewrite Hbit in Hval. simpl. rewrite Hbit. f_equal.
apply IH; [exact Hlen|lia].
Qed.

Lemma same_bits_swap s : forall s',
  Forall symbol s -> Forall symbol s' ->
  map spec_bit s = map spec_bit s' -> swap_equiv s s'.
Proof.
induction s as [|c s IH]; intros [|c' s'] Hs Hs' Hbits; try discriminate;
  [constructor|].
inversion Hs as [|? ? Hc Hs0]; inversion Hs' as [|? ? Hc' Hs0']; subst.
injection Hbits as Hbit Hbits.
constructor; [|apply IH; assumption].
destruct Hc as [->|[->| ->]], Hc' as [->|[->| ->]]; try discriminate Hbit;
  first [left; reflexivity
        |right; split; first [left; reflexivity|right; reflexivity]].
Qed.

(** [compile] of a document that is one run of symbols. *)
Lemma compile_single_run s :
  Forall symbol s -> s <> [] ->
  compile s =
    match Byte.of_N (spec_binary_value s) with
    | Some b => inr [b]
    | None => inl OverflowError
    end.
Proof.
intros Hs Hne. destruct s as [|c s]; [congruence|].
assert (Hrun : maximal_leading_run (c :: s) (c :: s)).
{ exists []. rewrite app_nil_r. repeat split. exact Hs. }
inversion Hs as [|? ? Hc Hs0]; subst.
rewrite compile_eq, lstrip_stop by (apply symbol_not_space, Hc).
rewrite splitlines_one_line.
- cbn [lines_bytes]. rewrite (line_bytes_run _ _ Hrun).
  destruct (Byte.of_N _); reflexivity.
- eapply Forall_impl; [exact Hs|]. apply symbol_not_linebreak.
Qed.
End Bits.

(** X3. The byte of a row of at most 8 symbols can be read back: the symbol
    at place [j] of a run of [k] symbols is lit exactly when bit
    [k - 1 - j] of the byte is set, and the bits from [k] up are clear. *)
Theorem compile_row_bits (s : str) :
  Forall symbol s -> s <> [] -> (length s <= 8)%nat ->
  exists b : byte,
    compile s = inr [b] /\
    (forall j c, s !! j = Some c ->
       N.testbit (Byte.to_N b) (N.of_nat (length s - 1 - j)) = is_lit c) /\
    (forall i, (length s <= i)%nat ->
       N.testbit (Byte.to_N b) (N.of_nat i) = false).
Proof.
intros Hs Hne Hlen.
destruct (of_N_small (spec_binary_value s)) as (b & Hb & Hval).
{ apply spec_binary_value_byte, Hlen. }
exists b. rewrite (compile_single_run s Hs Hne), Hb, Hval.
split; [reflexivity|]. split.
- apply spec_binary_value_testbit.
- intros i Hi. exact (testbit_high _ _ _ (spec_binary_value_lt s) Hi).
Qed.

Lemma compile_row_bits_witness :
  exists b : byte,
    compile (text "*.@") = inr [b] /\
    N.testbit (Byte.to_N b) (N.of_nat (length (text "*.@") - 1 - 1)) = is_lit DOT /\
    N.testbit (Byte.to_N b) (N.of_nat 3) = false.
Proof.
destruct (compile_row_bits (text "*.@")) as (b & Hb & Hbit & Hhigh).
- repeat constructor; unfold symbol; vm_compute; tauto.
- discriminate.
- vm_compute. lia.
- exists b. split; [exact Hb|]. split.
  + apply Hbit. reflexivity.
  + apply Hhigh. vm_compute. lia.
Defined.

(** X4. Among rows of one width, of at most 8 symbols, the byte tells the
    pixels: two such rows compile to the same byte if and only if they
    differ at most in which of ['*'] and ['@'] marks a lit pixel. *)
Theorem compile_row_injective (s s' : str) :
  Forall symbol s -> Forall symbol s' -> s <> [] ->
  length s = length s' -> (length s <= 8)%nat ->
  compile s = compile s' <-> swap_equiv s s'.
Proof.
intros Hs Hs' Hne Hlen Hle.
assert (Hne' : s' <> []) by (destruct s, s'; simpl in *; congruence).
split.
- rewrite (compile_single_run s Hs Hne), (compile_single_run s' Hs' Hne').
  destruct (of_N_small (spec_binary_value s)) as (b & Hb & Hval).
  { apply spec_binary_value_byte, Hle. }
  destruct (of_N_small (spec_binary_value s')) as (b' & Hb' & Hval').
  { apply spec_binary_value_byte. rewrite <- Hlen. exact Hle. }
  rewrite Hb, Hb'. intros [= <-].
  apply same_bits_swap; [exact Hs|exact Hs'|].
  apply spec_binary_value_inj; [exact Hlen|congruence].
- intros Hswap. rewrite !compile_eq.
  rewrite (lines_bytes_swap (splitlines (lstrip s)) (splitlines (lstrip s')));
    [reflexivity|].
  apply splitlines_swap, lstrip_swap, Hswap.
Qed.

Lemma compile_row_injective_witness :
  compile (text "*.@") = compile (text "@.@") <->
  swap_equiv (text "*.@") (text "@.@").
Proof.
apply compile_row_injective.
- repeat constructor; unfold symbol; vm_compute; tauto.
- repeat constructor; unfold symbol; vm_compute; tauto.
- discriminate.
- reflexivity.
- vm_compute. lia.
Defined.

(** X5. The width of a row is not kept: a ['.'] put before a row changes
    nothing in the round, so a narrow row and the same row filled up with
    ['.'] on the left give the same byte. *)
Theorem compile_line_leading_dot (result : loc) (line : str) (h : heap) :
  starts_with_symbol line = true ->
  compile_line result (DOT :: line) h = compile_line result line h.
Proof.
intros Hline. rewrite !compile_line_run, !line_bytes_value, Hline.
assert (Hval : row_value (DOT :: line) = row_value line).
{ unfold row_value. cbn [leading_run].
  change (is_symbol DOT) with true. cbv iota.
  rewrite spec_binary_value_cons. change (spec_bit DOT) with 0. lia. }
rewrite Hval. reflexivity.
Qed.

Lemma compile_line_leading_dot_witness :
  compile_line 0%nat (DOT :: text "*.") {[0%nat := []]}
  = compile_line 0%nat (text "*.") {[0%nat := []]}.
Proof.
apply compile_line_leading_dot. reflexivity.
Defined.

(** ** Documents *)

Section Documents.
Implicit Types (c : char) (s line cur sep : str) (lines : list str).

Lemma leading_run_snoc line c :
  is_symbol c = false -> leading_run (line ++ [c]) = leading_run line.
Proof.
intros Hc. induction line as [|d line IH]; simpl.
- rewrite Hc. reflexivity.
- rewrite IH. reflexivity.
Qed.

(** A character that is no symbol, put at the end of a line, changes
    nothing in its round. *)
Lemma line_bytes_snoc line c :
  is_symbol c = false -> line_bytes (line ++ [c]) = line_bytes line.
Proof.
intros Hc. rewrite !line_bytes_value. unfold row_value.
rewrite (leading_run_snoc line c Hc).
destruct line as [|d line]; simpl; [rewrite Hc|]; reflexivity.
Qed.

Lemma lines_bytes_last cur acc :
  lines_bytes (match cur with [] => [] | _ => [cur] end) acc
  = lines_bytes [cur] acc.
Proof. destruct cur; reflexivity. Qed.

Lemma lines_bytes_cons_ext line lines1 lines2 :
  (forall acc, lines_bytes lines1 acc = lines_bytes lines2 acc) ->
  forall acc, lines_bytes (line :: lines1) acc = lines_bytes (line :: lines2) acc.
Proof.
intros Hext acc. cbn [lines_bytes].
destruct (line_bytes line) as [e|[b|]]; [reflexivity|apply Hext|apply Hext].
Qed.

Lemma linebreak_space c : islinebreak c = true -> isspace c = true.
Proof.
unfold islinebreak, isspace. intros H.
repeat (apply orb_true_iff in H as [H|H]);
  repeat (apply andb_true_iff in H as [? ?]);
  repeat match goal with
         | H : (_ <=? _) = true |- _ => apply N.leb_le in H
         | H : (_ =? _) = true |- _ => apply N.eqb_eq in H
         end;
  repeat (rewrite orb_true_iff || rewrite andb_true_iff);
  rewrite ?N.leb_le, ?N.eqb_eq; lia.
Qed.

Lemma lstrip_app s t :
  lstrip (s ++ t) = match lstrip s with [] => lstrip t | _ => lstrip s ++ t end.
Proof.
induction s as [|c s IH]; simpl.
- destruct (lstrip t); reflexivity.
- destruct (isspace c); [exact IH|reflexivity].
Qed.

(** A whitespace character at the end of a text changes nothing in what
    the loop does with its lines. *)
Lemma splitlines_from_snoc_space c (n : nat) : forall s cur acc,
  (length s <= n)%nat -> isspace c = true ->
  lines_bytes (splitlines_from cur (s ++ [c])) acc
  = lines_bytes (splitlines_from cur s) acc.
Proof.
induction n as [|n IH]; intros s cur acc Hn Hc.
- destruct s as [|d s]; [|simpl in Hn; lia].
  cbn [app splitlines_from]. rewrite lines_bytes_last.
  destruct (islinebreak c); [reflexivity|].
  rewrite lines_bytes_last. cbn [lines_bytes].
  rewrite (line_bytes_snoc cur c (space_not_symbol c Hc)). reflexivity.
- destruct s as [|d s]; [apply (IH [] cur acc); [simpl; lia|exact Hc]|].
  simpl in Hn. cbn [app splitlines_from].
  destruct (islinebreak d); [|apply IH; [lia|exact Hc]].
  apply lines_bytes_cons_ext. intros acc'.
  destruct s as [|e s]; cbn [app].
  + destruct ((d =? 13) && (c =? 10)); [reflexivity|].
    apply (IH [] [] acc'); [simpl; lia|exact Hc].
  + destruct ((d =? 13) && (e =? 10)).
    * apply IH; [simpl in Hn; lia|exact Hc].
    * apply (IH (e :: s)); [simpl in *; lia|exact Hc].
Qed.

Lemma compile_snoc_space s c :
  isspace c = true -> compile (s ++ [c]) = compile s.
Proof.
intros Hc. rewrite !compile_eq, lstrip_app.
destruct (lstrip s) as [|d t] eqn:Hs.
- simpl. rewrite Hc. reflexivity.
- unfold splitlines.
  rewrite (splitlines_from_snoc_space c (length (d :: t))); [reflexivity|lia|exact Hc].
Qed.
End Documents.

(** X6. Whitespace at the end of a document, a last line break or blank
    lines, changes nothing in what [compile] returns or raises. *)
Theorem compile_trailing_whitespace (s w : str) :
  Forall (fun c => isspace c = true) w -> compile (s ++ w) = compile s.
Proof.
intros Hw. induction w as [|c w IH] using rev_ind.
- rewrite app_nil_r. reflexivity.
- apply Forall_app in Hw as [Hw Hc]. inversion Hc; subst.
  rewrite app_assoc, compile_snoc_space by assumption. apply IH, Hw.
Qed.

Lemma compile_trailing_whitespace_witness :
  compile (text ("*." ++ NL ++ ".*") ++ text (" " ++ NL ++ NL))
  = compile (text ("*." ++ NL ++ ".*")).
Proof.
apply compile_trailing_whitespace. repeat constructor.
Defined.

(** ** Line ends *)

Section LineEnds.
Implicit Types (c b : char) (s line cur sep : str) (lines : list str).

Lemma splitlines_from_line line : forall cur s,
  Forall (fun c => islinebreak c = false) line ->
  splitlines_from cur (line ++ s) = splitlines_from (cur ++ line) s.
Proof.
induction line as [|c line IH]; intros cur s Hline.
- rewrite app_nil_r. reflexivity.
- inversion Hline as [|? ? Hc Hline']; subst.
  cbn [app splitlines_from]. rewrite Hc, IH by exact Hline'.
  rewrite <- app_assoc. reflexivity.
Qed.

Lemma line_end_space sep :
  line_end sep -> Forall (fun c => isspace c = true) sep.
Proof.
intros [->|(b & -> & Hb)].
- repeat constructor.
- constructor; [apply linebreak_space, Hb|constructor].
Qed.

(** What follows a one-character line end in such a document is never the
    LF that would make a CR LF of it. *)
Lemma unlines_head b lines :
  Forall (Forall (fun c => islinebreak c = false)) lines ->
  match unlines [b] lines with
  | [] => True
  | c :: _ => (b =? 13) && (c =? 10) = false
  end.
Proof.
intros Hlines. destruct Hlines as [|line lines Hline _]; [exact I|].
unfold unlines. cbn [map concat].
destruct Hline as [|c line Hc _]; cbn [app].
- destruct (N.eqb_spec b 13) as [->|]; reflexivity.
- destruct (N.eqb_spec c 10) as [->|]; [discriminate Hc|].
  apply andb_false_r.
Qed.

Lemma splitlines_from_unlines sep lines : forall cur line,
  line_end sep ->
  Forall (fun c => islinebreak c = false) line ->
  Forall (Forall (fun c => islinebreak c = false)) lines ->
  splitlines_from cur (unlines sep (line :: lines))
  = (cur ++ line) :: splitlines_from [] (unlines sep lines).
Proof.
intros cur line Hsep Hline Hlines.
unfold unlines at 1. cbn [map concat]. fold (unlines sep lines).
rewrite <- app_assoc, splitlines_from_line by exact Hline.
destruct Hsep as [->|(b & -> & Hb)].
- reflexivity.
- cbn [app splitlines_from]. rewrite Hb. f_equal.
  pose proof (unlines_head b lines Hlines) as Hhead.
  destruct (unlines [b] lines) as [|c rest]; [reflexivity|].
  rewrite Hhead. reflexivity.
Qed.

(** Splitting a document written line by line gives the lines back. *)
Lemma splitlines_unlines sep lines :
  line_end sep ->
  Forall (Forall (fun c => islinebreak c = false)) lines ->
  splitlines (unlines sep lines) = lines.
Proof.
intros Hsep Hlines. unfold splitlines.
induction Hlines as [|line lines Hline Hlines IH]; [reflexivity|].
rewrite splitlines_from_unlines by assumption. f_equal. exact IH.
Qed.

Lemma lstrip_no_break s :
  Forall (fun c => islinebreak c = false) s ->
  Forall (fun c => islinebreak c = false) (lstrip s).
Proof.
induction 1 as [|c s Hc Hs IH]; [constructor|].
simpl. destruct (isspace c); [exact IH|constructor; assumption].
Qed.

(** The lines of a document, stripped, do not depend on how its lines end. *)
Lemma splitlines_lstrip_unlines sep lines :
  line_end sep ->
  Forall (Forall (fun c => islinebreak c = false)) lines ->
  splitlines (lstrip (unlines sep lines))
  = splitlines (lstrip (unlines [LF] lines)).
Proof.
intros Hsep Hlines.
assert (HLF : line_end [LF]) by (right; exists LF; split; reflexivity).
induction Hlines as [|line lines Hline Hlines IH]; [reflexivity|].
unfold unlines. cbn [map concat]. fold (unlines sep lines) (unlines [LF] lines).
rewrite !lstrip_app.
destruct (lstrip line) as [|c t] eqn:Hstrip.
- rewrite (lstrip_all_spaces sep (line_end_space sep Hsep)).
  rewrite (lstrip_all_spaces [LF] (line_end_space [LF] HLF)).
  exact IH.
- assert (Ht : Forall (fun c => islinebreak c = false) (c :: t)).
  { rewrite <- Hstrip. apply lstrip_no_break, Hline. }
  cbn [app].
  change (c :: (t ++ sep) ++ unlines sep lines)
    with (unlines sep ((c :: t) :: lines)).
  change (c :: (t ++ [LF]) ++ unlines [LF] lines)
    with (unlines [LF] ((c :: t) :: lines)).
  rewrite !splitlines_unlines by (assumption || (constructor; assumption)).
  reflexivity.
Qed.
End LineEnds.

(** X7. How the lines of a document end does not matter: written with
    CR LF, with a lone CR, or with any other single line boundary after
    each line, it compiles as it does written with LF. *)
Theorem compile_line_ends (sep : str) (lines : list str) :
  line_end sep ->
  Forall (Forall (fun c => islinebreak c = false)) lines ->
  compile (unlines sep lines) = compile (unlines [LF] lines).
Proof.
intros Hsep Hlines.
rewrite !compile_eq, (splitlines_lstrip_unlines sep lines Hsep Hlines).
reflexivity.
Qed.

Lemma compile_line_ends_witness :
  compile (unlines [CR; LF] [text " "; text "# a"; text "*."; []; text " *"])
  = compile (unlines [LF] [text " "; text "# a"; text "*."; []; text " *"]).
Proof.
apply compile_line_ends.
- left. reflexivity.
- repeat constructor.
Defined.

(** ** Documents put together *)

Section Join.
Implicit Types (c : char) (a b cur : str) (lines : list str).

Lemma lines_bytes_cons_then line lines1 lines2 lines3 :
  (forall acc,
     lines_bytes lines1 acc =
       match lines_bytes lines2 acc with
       | inl e => inl e
       | inr out => lines_bytes lines3 out
       end) ->
  forall acc,
    lines_bytes (line :: lines1) acc =
      match lines_bytes (line :: lines2) acc with
      | inl e => inl e
      | inr out => lines_bytes lines3 out
      end.
Proof.
intros Hthen acc. cbn [lines_bytes].
destruct (line_bytes line) as [e|[x|]]; [reflexivity|apply Hthen|apply Hthen].
Qed.

(** The loop over [a], a line feed and [b] is the loop over [a] followed
    by the loop over [b]. *)
Lemma splitlines_from_join b (n : nat) : forall a cur acc,
  (length a <= n)%nat ->
  lines_bytes (splitlines_from cur (a ++ LF :: b)) acc =
    match lines_bytes (splitlines_from cur a) acc with
    | inl e => inl e
    | inr out => lines_bytes (splitlines b) out
    end.
Proof.
assert (Hbase : forall cur acc,
  lines_bytes (splitlines_from cur (LF :: b)) acc =
    match lines_bytes (splitlines_from cur []) acc with
    | inl e => inl e
    | inr out => lines_bytes (splitlines b) out
    end).
{ intros cur acc.
  assert (Hsplit : splitlines_from cur (LF :: b) = [cur] ++ splitlines b).
  { destruct b; reflexivity. }
  rewrite Hsplit, lines_bytes_app. cbn [splitlines_from].
  rewrite lines_bytes_last. reflexivity. }
induction n as [|n IH]; intros a cur acc Hn.
- destruct a as [|d a]; [apply Hbase|simpl in Hn; lia].
- destruct a as [|d a]; [apply Hbase|].
  simpl in Hn. cbn [app splitlines_from].
  destruct (islinebreak d); [|apply IH; lia].
  apply lines_bytes_cons_then. intros acc'.
  destruct a as [|e a]; cbn [app].
  + destruct ((d =? 13) && (LF =? 10)).
    * reflexivity.
    * apply Hbase.
  + destruct ((d =? 13) && (e =? 10)).
    * apply IH. simpl in Hn. lia.
    * apply (IH (e :: a)). simpl in *. lia.
Qed.
End Join.

(** X8. Documents compile piece by piece: for a second document [b] that
    does not start with whitespace, [compile] of [a], a line feed and [b]
    returns the bytes of [a] followed by the bytes of [b], and raises what
    the first of the two to raise does. *)
Theorem compile_join (a b : str) :
  lstrip b = b ->
  compile (a ++ LF :: b) = outcome_app (compile a) (compile b).
Proof.
intros Hb. rewrite !compile_eq, lstrip_app, Hb.
destruct (lstrip a) as [|c t] eqn:Ha.
- change (lstrip (LF :: b)) with (lstrip b). rewrite Hb.
  change (lines_bytes (splitlines []) []) with (@inr exn (list bytes) []).
  cbn [concat outcome_app].
  destruct (lines_bytes (splitlines b) []); reflexivity.
- unfold splitlines at 1.
  rewrite (splitlines_from_join b (length (c :: t))) by lia.
  fold (splitlines (c :: t)).
  destruct (lines_bytes (splitlines (c :: t)) []) as [e|out]; [reflexivity|].
  rewrite lines_bytes_acc. unfold outcome_app.
  destruct (lines_bytes (splitlines b) []) as [e|out']; [reflexivity|].
  rewrite concat_app. reflexivity.
Qed.

Lemma compile_join_witness :
  compile (text ("  *." ++ NL ++ "# a") ++ LF :: text (".*" ++ NL ++ "**"))
  = outcome_app (compile (text ("  *." ++ NL ++ "# a")))
                (compile (text (".*" ++ NL ++ "**"))).
Proof.
apply compile_join. reflexivity.
Defined.

(** ** Runs of [main] *)

(** X9. Once the output file is open, a run of [main] that fails, because
    the font file is missing, cannot be opened or cannot be decoded, or
    because a row overflows, leaves the output file empty, whatever it held
    before, and changes no other file. *)
Theorem main_failure_empties_output (resolve : string -> string)
    (wb_error r_error : string -> option os_error)
    (decode : bytes -> option str) (ns : Namespace) (fs fs' : files)
    (e : main_exn) :
  wb_error (ns_o ns) = None ->
  main_with resolve wb_error r_error decode ns fs = (fs', inl e) ->
  fs' = <[resolve (ns_o ns) := []]> fs.
Proof.
intros Hw. unfold main_with, open_wb. rewrite Hw.
destruct (read_text resolve r_error decode (ns_font ns) _) as [e'|src];
  [congruence|].
destruct (compile src); [congruence|discriminate].
Qed.

Lemma main_failure_empties_output_witness :
  fst (main_with drop_dot_slash (fun _ => None) (fun _ => None)
         (fun bs => Some (map Byte.to_N bs))
         (mkNamespace "hankaku.txt" "./font.out")
         {["font.out" := [x18; x24]]})
  = <["font.out" := []]> {["font.out" := [x18; x24]]}.
Proof.
apply (main_failure_empties_output drop_dot_slash (fun _ => None)
         (fun _ => None) (fun bs => Some (map Byte.to_N bs))
         (mkNamespace "hankaku.txt" "./font.out") _ _
         (OSError FileNotFoundError)).
- reflexivity.
- vm_compute. reflexivity.
Defined.




